(** * CParty: the candidate record [Result] and its ranking predicate

    A shallow embedding of [src/Result.hh] (class [Result] and its nested
    comparator [Result_comp]) and of the part of
    [src/ViennaRNA/utils/strings.h] that documents the splitting,
    cut-point and RNA-alphabet helpers.

    C++ [double] is IEEE 754 binary64, which is exactly Rocq's primitive
    [float]; [<] and [==] on doubles are [PrimFloat.ltb] and
    [PrimFloat.eqb].  [std::string] and C strings are [string]. *)

From Stdlib Require Import Floats ZArith String Ascii List Bool Lia.
Import ListNotations.

Local Open Scope string_scope.

(** ** A small state monad

    Member functions of [Result] are not declared [const] and the
    comparator takes its arguments by non-const reference, so the embedding
    threads the state explicitly: a computation maps the state before to a
    result and the state after. *)

Definition State (S A : Type) : Type := S -> A * S.

Definition ret {S A : Type} (a : A) : State S A := fun s => (a, s).

Definition bind {S A B : Type} (m : State S A) (k : A -> State S B)
  : State S B :=
  fun s => let (a, s') := m s in k a s'.

Definition evalState {S A : Type} (m : State S A) (s : S) : A := fst (m s).
Definition execState {S A : Type} (m : State S A) (s : S) : S := snd (m s).

Notation "x <- m ;; k" := (bind m (fun x => k))
  (at level 61, m at next level, right associativity).

(** ** The class [Result] *)

Definition double : Type := float.

Section ResultClass.

(** [pf_t] is a typedef of [base_types.hh], which is not part of the
    sources at hand; the class only stores and returns values of it. *)
Variable pf_t : Type.

(** The private data members, in declaration order. *)
Record Result : Type := Build_Result {
  sequence          : string;
  restricted        : string;
  restricted_energy : double;
  final_structure   : string;
  final_energy      : double;
  pf_energy         : pf_t
}.

(** A member function runs on the object it is called on. *)
Definition method (A : Type) : Type := State Result A.

(** Modelled from the spec: the constructor [Result::Result] is declared
    in [Result.hh] and defined in [Result.cc], which is not among the
    sources.  The specification says that the record is "constructed once
    from six values" and that "all fields are set at construction": each
    argument initialises the data member of the same name. *)
Definition Result_ctor
    (sequence_ restricted_ : string) (restricted_energy_ : double)
    (final_structure_ : string) (final_energy_ : double)
    (pf_energy_ : pf_t) : Result :=
  {| sequence          := sequence_;
     restricted        := restricted_;
     restricted_energy := restricted_energy_;
     final_structure   := final_structure_;
     final_energy      := final_energy_;
     pf_energy         := pf_energy_ |}.

(** Modelled from the spec: the six getters are declared in [Result.hh]
    and defined in [Result.cc], which is not among the sources.  The
    specification "exposes one read accessor per field": a getter returns
    its data member and leaves the object as it is. *)
Definition get_sequence : method string :=
  fun this => (sequence this, this).
Definition get_restricted : method string :=
  fun this => (restricted this, this).
Definition get_final_structure : method string :=
  fun this => (final_structure this, this).
Definition get_restricted_energy : method double :=
  fun this => (restricted_energy this, this).
Definition get_final_energy : method double :=
  fun this => (final_energy this, this).
Definition get_pf_energy : method pf_t :=
  fun this => (pf_energy this, this).

(** *** References and the object store

    [operator()] receives [Result &x] and [Result &y].  A reference
    always designates an object, and the two may designate the same one,
    so the comparator runs on a store of objects addressed by
    references. *)

Definition ref : Type := nat.
Definition store : Type := ref -> Result.

Definition upd (h : store) (r : ref) (o : Result) : store :=
  fun r' => if Nat.eqb r' r then o else h r'.

(** [r.m()]: run member function [m] on the object [r] designates and
    write the object back. *)
Definition call {A : Type} (r : ref) (m : method A) : State store A :=
  fun h => let (a, o) := m (h r) in (a, upd h r o).

(** [Result::Result_comp::operator()], statement by statement.  C++ leaves
    the order of the two calls around [<] open; the left one is run
    first here; the getters only read, so the order does not matter. *)
Definition Result_comp (x y : ref) : State store bool :=
  xf <- call x get_final_energy ;;
  yf <- call y get_final_energy ;;
  if (xf <? yf)%float then ret true
  else
    xr <- call x get_restricted_energy ;;
    yr <- call y get_restricted_energy ;;
    if (xr <? yr)%float then ret true
    else ret false.

(** The store that holds [x] at reference 0 and [y] everywhere else. *)
Definition two (x y : Result) : store :=
  fun r => match r with O => x | S _ => y end.

(** The ranking predicate on two records: the value the comparator
    returns when [x] and [y] are the objects its arguments designate. *)
Definition isBetter (x y : Result) : bool :=
  evalState (Result_comp 0 1) (two x y).

(** The ranking rule in the words of the specification (section 4.2). *)
Definition isBetter_spec (x y : Result) : bool :=
  (final_energy x <? final_energy y)%float
  || (restricted_energy x <? restricted_energy y)%float.

End ResultClass.

Arguments Build_Result {pf_t}.
Arguments sequence {pf_t}.
Arguments restricted {pf_t}.
Arguments restricted_energy {pf_t}.
Arguments final_structure {pf_t}.
Arguments final_energy {pf_t}.
Arguments pf_energy {pf_t}.
Arguments Result_ctor {pf_t}.
Arguments get_sequence {pf_t}.
Arguments get_restricted {pf_t}.
Arguments get_final_structure {pf_t}.
Arguments get_restricted_energy {pf_t}.
Arguments get_final_energy {pf_t}.
Arguments get_pf_energy {pf_t}.
Arguments upd {pf_t}.
Arguments call {pf_t A}.
Arguments Result_comp {pf_t}.
Arguments two {pf_t}.
Arguments isBetter {pf_t}.
Arguments isBetter_spec {pf_t}.

(** Sample records with [pf_t] instantiated by [double]: the energies
    vary, as in the examples of the specification (section 8). *)
Definition sample (restricted_energy_ final_energy_ : double)
  : Result double :=
  Result_ctor "GGGGAAAACCCC" "((........))" restricted_energy_
              "((((....))))" final_energy_ (-6.25)%float.

(** ** The string helpers of [ViennaRNA/utils/strings.h]

    The header declares and documents these functions; their bodies are in
    ViennaRNA's string utilities, which are not among the sources.  A C
    string is modelled by the [string] of its characters before the
    terminating NUL, and a [NULL] argument by [None]. *)

(** [strchr(s, c) != NULL] for a character [c] other than NUL. *)
Fixpoint contains (c : ascii) (s : string) : bool :=
  match s with
  | EmptyString => false
  | String a rest => Ascii.eqb a c || contains c rest
  end.

(** The character that delimits: "the default delimiter is the ampersand
    ['&'] and will be used when [NULL] is passed as a second argument";
    otherwise the "single character" the argument points to.  An empty
    delimiter string has no character to offer and falls back to the
    default. *)
Definition delimiter_char (delimiter : option string) : ascii :=
  match delimiter with
  | Some (String c _) => c
  | Some EmptyString | None => "&"%char
  end.

(** The fields of [s] between the occurrences of [c], in order, the empty
    ones included: a reference notion, not a function of the header. *)
Fixpoint split_on (c : ascii) (s : string) : list string :=
  match s with
  | EmptyString => [EmptyString]
  | String a rest =>
      if Ascii.eqb a c then EmptyString :: split_on c rest
      else
        match split_on c rest with
        | tok :: toks => String a tok :: toks
        | [] => [String a EmptyString]
        end
  end.

Definition nonempty (s : string) : bool :=
  match s with
  | EmptyString => false
  | String _ _ => true
  end.

(** *** [strtok_r] with a one-character delimiter set

    A call of [strtok_r] first steps over the delimiters at the front of
    what is left of the string ([skip_delim]).  When nothing remains it
    returns [NULL]; otherwise the token runs up to the next delimiter or
    to the end, and the scan resumes behind that delimiter
    ([take_token]). *)
Fixpoint skip_delim (c : ascii) (s : string) : string :=
  match s with
  | EmptyString => EmptyString
  | String a rest => if Ascii.eqb a c then skip_delim c rest else s
  end.

Fixpoint take_token (c : ascii) (s : string) : string * string :=
  match s with
  | EmptyString => (EmptyString, EmptyString)
  | String a rest =>
      if Ascii.eqb a c then (EmptyString, rest)
      else let (tok, more) := take_token c rest in (String a tok, more)
  end.

(** The token and what is left to scan, or [None] for [NULL]. *)
Definition strtok_r (c : ascii) (s : string) : option (string * string) :=
  match skip_delim c s with
  | EmptyString => None
  | String a rest => Some (take_token c (String a rest))
  end.

(** The tokens of repeated calls, until [strtok_r] returns [NULL] (or the
    fuel runs out: [strtok_loop_enough] shows that one more than the
    length of the string is always enough). *)
Fixpoint strtok_loop (fuel : nat) (c : ascii) (s : string) : list string :=
  match fuel with
  | O => []
  | S fuel' =>
      match strtok_r c s with
      | None => []
      | Some (tok, more) => tok :: strtok_loop fuel' c more
      end
  end.

(** Modelled from the spec: the body of [vrna_strsplit] is not among the
    sources.  The header says that it "splits a string into an array of
    strings using a single character that delimits the elements within the
    string", and that "this function internally uses strtok_r()": the
    elements are the tokens that successive calls of [strtok_r] return for
    the one delimiting character.  The returned array is modelled by the
    list of its elements before the terminating [NULL]. *)
Definition vrna_strsplit (string_ : string) (delimiter : option string)
  : list string :=
  strtok_loop (S (String.length string_)) (delimiter_char delimiter)
              string_.


(** [insert_at n c s]: [c] placed after the first [n] characters of [s]
    (after the last one when [s] has fewer). *)
Fixpoint insert_at (n : nat) (c : ascii) (s : string) : string :=
  match n, s with
  | O, _ => String c s
  | S _, EmptyString => String c EmptyString
  | S n', String a rest => String a (insert_at n' c rest)
  end.

(** Modelled from the spec: the body of [vrna_cut_point_insert] is not
    among the sources.  The header: "If the cut-point position is less or
    equal to zero, this function just returns a copy of the provided
    string. Otherwise, the cut-point character is set at the corresponding
    position".  The model counts positions from 1: the ['&'] becomes
    character number [cp] of the result, with [cp - 1] characters of the
    string before it.  For a position that the string does not reach the
    documentation fixes nothing; the model puts the character at the
    end. *)
Definition vrna_cut_point_insert (string_ : string) (cp : Z) : string :=
  if (0 <? cp)%Z then insert_at (Z.to_nat (cp - 1)) "&"%char string_
  else string_.

(** [cut_first c s]: the index (from 0) of the first [c] in [s] and [s]
    without that character, when there is one. *)
Fixpoint cut_first (c : ascii) (s : string) : option (nat * string) :=
  match s with
  | EmptyString => None
  | String a rest =>
      if Ascii.eqb a c then Some (O, rest)
      else
        match cut_first c rest with
        | Some (i, t) => Some (S i, String a t)
        | None => None
        end
  end.

(** Modelled from the spec: the body of [vrna_cut_point_remove] is not
    among the sources.  The header: the function "removes the cut-point
    indicating ['&'] character from a string and memorizes its position in
    a provided integer variable. If not ['&'] is found in the input, the
    integer variable is set to -1. The function returns a copy of the input
    string with the ['&'] being sliced out."  The result pairs the returned
    string with the value left in [*cp]; positions count from 1 as in
    [vrna_cut_point_insert]. *)
Definition vrna_cut_point_remove (string_ : string) : string * Z :=
  match cut_first "&"%char string_ with
  | Some (i, t) => (t, Z.of_nat i + 1)%Z
  | None => (string_, (-1)%Z)
  end.

(** [f] applied to every character of [s]: a loop that rewrites the
    characters of a C string in place. *)
Fixpoint map_chars (f : ascii -> ascii) (s : string) : string :=
  match s with
  | EmptyString => EmptyString
  | String a rest => String (f a) (map_chars f rest)
  end.

(** What [vrna_seq_toRNA] does to one character. *)
Definition to_rna (a : ascii) : ascii :=
  if Ascii.eqb a "T" then "U"%char
  else if Ascii.eqb a "t" then "u"%char
  else a.

(** Modelled from the spec: the body of [vrna_seq_toRNA] is not among the
    sources.  The header: "This function substitudes T and t with U and
    u, respectively".  The function rewrites its argument in place; the
    model returns the content of the buffer afterwards. *)
Definition vrna_seq_toRNA (sequence_ : string) : string :=
  map_chars to_rna sequence_.

(** * Properties of the ranking predicate *)

(** ** Facts about [<] and [==] on doubles *)

Lemma SFcompare_refl_not_Lt (f : spec_float) : SFcompare f f <> Some Lt.
Proof.
  destruct f as [s | s | | s m e]; simpl; try destruct s; try discriminate.
  - rewrite Z.compare_refl, Pos.compare_cont_refl. discriminate.
  - rewrite Z.compare_refl, Pos.compare_cont_refl. discriminate.
Qed.

Lemma double_lt_irrefl (a : double) : (a <? a)%float = false.
Proof.
  rewrite FloatAxioms.ltb_spec. unfold SFltb.
  pose proof (SFcompare_refl_not_Lt (Prim2SF a)) as H.
  destruct (SFcompare (Prim2SF a) (Prim2SF a)) as [[ | | ] | ];
    congruence.
Qed.

Lemma double_eq_not_lt (a b : double) :
  (a =? b)%float = true -> (a <? b)%float = false.
Proof.
  rewrite FloatAxioms.eqb_spec, FloatAxioms.ltb_spec. unfold SFeqb, SFltb.
  destruct (SFcompare (Prim2SF a) (Prim2SF b)) as [[ | | ] | ];
    congruence.
Qed.

(** ** The comparator on a store *)

Section Comparator.

Context {pf_t : Type}.
Implicit Types (x y : Result pf_t) (h : store pf_t) (a b r : ref).

Lemma upd_same h r r' : upd h r (h r) r' = h r'.
Proof.
  unfold upd. destruct (Nat.eqb r' r) eqn:E; [ | reflexivity ].
  apply Nat.eqb_eq in E. now subst.
Qed.

(** Running the comparator: the value is the disjunction of the two
    comparisons and the store is rewritten with the objects it held. *)
Lemma Result_comp_run h a b :
  exists h',
    Result_comp a b h = (isBetter_spec (h a) (h b), h')
    /\ forall r, h' r = h r.
Proof.
  unfold Result_comp, bind, call, ret, isBetter_spec,
    get_final_energy, get_restricted_energy.
  pose proof (upd_same h a) as E1.
  set (h1 := upd h a (h a)) in *.
  pose proof (upd_same h1 b) as E2.
  set (h2 := upd h1 b (h1 b)) in *.
  rewrite (E1 b).
  destruct (final_energy (h a) <? final_energy (h b))%float; simpl.
  - exists h2. split; [ reflexivity | ].
    intro r. now rewrite E2, E1.
  - pose proof (upd_same h2 a) as E3.
    set (h3 := upd h2 a (h2 a)) in *.
    pose proof (upd_same h3 b) as E4.
    set (h4 := upd h3 b (h3 b)) in *.
    rewrite (E3 b), !E2, !E1.
    exists h4. split.
    + now destruct
        (restricted_energy (h a) <? restricted_energy (h b))%float.
    + intro r. now rewrite E4, E3, E2, E1.
Qed.

Lemma Result_comp_value h a b :
  evalState (Result_comp a b) h = isBetter_spec (h a) (h b).
Proof.
  unfold evalState.
  destruct (Result_comp_run h a b) as (h' & -> & _). reflexivity.
Qed.

Lemma Result_comp_frame h a b r :
  execState (Result_comp a b) h r = h r.
Proof.
  unfold execState.
  destruct (Result_comp_run h a b) as (h' & -> & Hh'). apply Hh'.
Qed.

Lemma isBetter_unfold x y : isBetter x y = isBetter_spec x y.
Proof. unfold isBetter. now rewrite Result_comp_value. Qed.

(** Whatever store and references the comparator is called with
    (aliased or not), it returns [isBetter] of the two objects. *)
Lemma Result_comp_isBetter h a b :
  evalState (Result_comp a b) h = isBetter (h a) (h b).
Proof. now rewrite Result_comp_value, isBetter_unfold. Qed.

(** Equal final energies, NaN included, leave the decision to the
    restricted energies. *)
Lemma isBetter_same_final_energy x y :
  final_energy x = final_energy y ->
  isBetter x y = (restricted_energy x <? restricted_energy y)%float.
Proof.
  intro H. rewrite isBetter_unfold. unfold isBetter_spec.
  now rewrite H, double_lt_irrefl.
Qed.

Lemma isBetter_irrefl x : isBetter x x = false.
Proof.
  rewrite isBetter_unfold. unfold isBetter_spec.
  now rewrite !double_lt_irrefl.
Qed.

End Comparator.

(** ** The claims about [Result] and its comparator *)

(** C1: for all records [x] and [y], the comparator returns true if
    [x.finalEnergy < y.finalEnergy], otherwise true if
    [x.restrictedEnergy < y.restrictedEnergy], otherwise false; that is,
    it returns the disjunction of the two comparisons, so a smaller final
    energy alone suffices whatever the restricted energies are. *)
Theorem isBetter_rule {pf_t : Type} (x y : Result pf_t) :
  isBetter x y =
    (if (final_energy x <? final_energy y)%float then true
     else if (restricted_energy x <? restricted_energy y)%float then true
     else false)
  /\ isBetter x y =
       ((final_energy x <? final_energy y)%float
        || (restricted_energy x <? restricted_energy y)%float)
  /\ ((final_energy x <? final_energy y)%float = true ->
      isBetter x y = true).
Proof.
  rewrite isBetter_unfold. unfold isBetter_spec.
  destruct (final_energy x <? final_energy y)%float;
    destruct (restricted_energy x <? restricted_energy y)%float;
    repeat split; intros; congruence.
Qed.

(** The example of the specification: x = (finalEnergy -5.0,
    restrictedEnergy -2.0) is better than y = (finalEnergy -4.0,
    restrictedEnergy -10.0). *)
Lemma isBetter_rule_example :
  isBetter (sample (-2)%float (-5)%float) (sample (-10)%float (-4)%float)
  = true.
Proof.
  destruct (isBetter_rule (sample (-2)%float (-5)%float)
                          (sample (-10)%float (-4)%float)) as (_ & _ & H).
  apply H. reflexivity.
Defined.

(** C2: when [x.finalEnergy == y.finalEnergy] (the comparison of C++ on
    doubles), the comparator returns exactly the truth value of
    [x.restrictedEnergy < y.restrictedEnergy]. *)
Theorem isBetter_tie_on_final_energy {pf_t : Type} (x y : Result pf_t) :
  (final_energy x =? final_energy y)%float = true ->
  isBetter x y = (restricted_energy x <? restricted_energy y)%float.
Proof.
  intro Heq. rewrite isBetter_unfold. unfold isBetter_spec.
  now rewrite (double_eq_not_lt _ _ Heq).
Qed.

(** The example of the specification: both final energies -3.0,
    restricted energies -1.0 and 0.0. *)
Lemma isBetter_tie_example :
  isBetter (sample (-1)%float (-3)%float) (sample 0%float (-3)%float) = true
  /\ isBetter (sample 0%float (-3)%float) (sample (-1)%float (-3)%float)
     = false.
Proof.
  split.
  - rewrite (isBetter_tie_on_final_energy
               (sample (-1)%float (-3)%float) (sample 0%float (-3)%float));
      reflexivity.
  - rewrite (isBetter_tie_on_final_energy
               (sample 0%float (-3)%float) (sample (-1)%float (-3)%float));
      reflexivity.
Defined.

(** C3: the ranking predicate is not transitive: there are records [x],
    [y], [z] with [isBetter x y] and [isBetter y z] true and [isBetter x z]
    false (whatever [pf_t] is, as long as it has a value to store). *)
Theorem isBetter_not_transitive {pf_t : Type} (pf : pf_t) :
  exists x y z : Result pf_t,
    isBetter x y = true /\ isBetter y z = true /\ isBetter x z = false.
Proof.
  exists (Result_ctor "GGGGAAAACCCC" "((........))" 1%float
                      "((((....))))" 2%float pf),
         (Result_ctor "GGGGAAAACCCC" "(..........)" 2%float
                      "((((....))))" 0%float pf),
         (Result_ctor "GGGGAAAACCCC" ".((......))." 0%float
                      "((((....))))" 1%float pf).
  repeat split.
Qed.

(** C4: there are two different records, tied on both energies and with
    different sequences, neither of which is better than the other. *)
Theorem isBetter_incomparable_distinct {pf_t : Type} (pf : pf_t) :
  exists x y : Result pf_t,
    x <> y
    /\ sequence x <> sequence y
    /\ final_energy x = final_energy y
    /\ restricted_energy x = restricted_energy y
    /\ isBetter x y = false /\ isBetter y x = false.
Proof.
  exists (Result_ctor "GGGGAAAACCCC" "((........))" (-1)%float
                      "((((....))))" (-3)%float pf),
         (Result_ctor "CCCCAAAAGGGG" "((........))" (-1)%float
                      "((((....))))" (-3)%float pf).
  repeat split; discriminate.
Qed.

(** C5: a record built by the constructor from six values gives each of
    them back through the getter of its field. *)
Theorem Result_getters_roundtrip {pf_t : Type}
    (sequence_ restricted_ : string) (restricted_energy_ : double)
    (final_structure_ : string) (final_energy_ : double)
    (pf_energy_ : pf_t) :
  let r := Result_ctor sequence_ restricted_ restricted_energy_
                       final_structure_ final_energy_ pf_energy_ in
  evalState get_sequence r = sequence_
  /\ evalState get_restricted r = restricted_
  /\ evalState get_restricted_energy r = restricted_energy_
  /\ evalState get_final_structure r = final_structure_
  /\ evalState get_final_energy r = final_energy_
  /\ evalState get_pf_energy r = pf_energy_.
Proof. repeat split. Qed.

(** C6: no public operation changes a record.  Each getter leaves its
    object as it was; the comparator, on any store and any two references
    (the same one twice included), returns a Boolean together with a store
    that holds at every reference the record it held before.  There is no
    failure path: the comparator is a total function. *)
Theorem Result_never_mutated {pf_t : Type} :
  (forall o : Result pf_t,
      execState get_sequence o = o
      /\ execState get_restricted o = o
      /\ execState get_restricted_energy o = o
      /\ execState get_final_structure o = o
      /\ execState get_final_energy o = o
      /\ execState get_pf_energy o = o)
  /\ (forall (h : store pf_t) (a b : ref),
        exists (v : bool) (h' : store pf_t),
          Result_comp a b h = (v, h')
          /\ v = isBetter (h a) (h b)
          /\ forall r : ref, h' r = h r).
Proof.
  split.
  - intro o. repeat split.
  - intros h a b.
    destruct (Result_comp_run h a b) as (h' & Hrun & Hframe).
    exists (isBetter_spec (h a) (h b)), h'.
    repeat split; trivial.
    now rewrite isBetter_unfold.
Qed.

(** C9: the ranking predicate is irreflexive: a record whose energies are
    not NaN is never better than itself. *)
Theorem isBetter_irreflexive {pf_t : Type} (x : Result pf_t) :
  is_nan (final_energy x) = false ->
  is_nan (restricted_energy x) = false ->
  isBetter x x = false.
Proof. intros _ _. apply isBetter_irrefl. Qed.

Lemma isBetter_irreflexive_example :
  isBetter (sample (-2)%float (-5)%float) (sample (-2)%float (-5)%float)
  = false.
Proof.
  apply (isBetter_irreflexive (sample (-2)%float (-5)%float));
    reflexivity.
Defined.

(** C10: the ranking predicate reads only the two energies: records that
    agree on [final_energy] and [restricted_energy] are interchangeable on
    either side, whatever their other fields are. *)
Theorem isBetter_depends_on_energies_only {pf_t : Type}
    (x y x' y' : Result pf_t) :
  final_energy x = final_energy x' ->
  restricted_energy x = restricted_energy x' ->
  final_energy y = final_energy y' ->
  restricted_energy y = restricted_energy y' ->
  isBetter x y = isBetter x' y'.
Proof.
  intros Hxf Hxr Hyf Hyr. rewrite !isBetter_unfold. unfold isBetter_spec.
  now rewrite Hxf, Hxr, Hyf, Hyr.
Qed.

Lemma isBetter_depends_on_energies_only_example :
  isBetter (sample (-2)%float (-5)%float) (sample (-10)%float (-4)%float)
  = isBetter
      (Result_ctor "AUGC" "...." (-2)%float "(..)" (-5)%float 1%float)
      (Result_ctor "CCCCUUUUGGGG" "" (-10)%float "((((....))))"
                   (-4)%float 7.5%float).
Proof.
  apply isBetter_depends_on_energies_only; reflexivity.
Defined.

(** * Properties of the string helpers *)

(** ** Splitting on a delimiter *)

Section Split.

Variable c : ascii.





(** A string without the delimiter is its own single field. *)
Lemma split_absent (s : string) : contains c s = false -> split_on c s = [s].
Proof.
  induction s as [ | a rest IH]; simpl; intro H; [ reflexivity | ].
  apply orb_false_iff in H as [E H].
  now rewrite E, IH.
Qed.

Lemma split_app (t u : string) :
  contains c t = false -> split_on c (t ++ String c u) = t :: split_on c u.
Proof.
  induction t as [ | a rest IH]; simpl; intro H.
  - now rewrite Ascii.eqb_refl.
  - apply orb_false_iff in H as [E H].
    now rewrite E, IH.
Qed.


End Split.

(** ** Cut points *)


Lemma cut_first_absent (c : ascii) (s : string) :
  contains c s = false -> cut_first c s = None.
Proof.
  induction s as [ | a rest IH]; simpl; intro H; [ reflexivity | ].
  apply orb_false_iff in H as [E H].
  now rewrite E, IH.
Qed.


(** A string without ['&'] comes back as it is, with -1 for the
    position. *)
Lemma vrna_cut_point_remove_absent (s : string) :
  contains "&"%char s = false -> vrna_cut_point_remove s = (s, (-1)%Z).
Proof.
  intro H. unfold vrna_cut_point_remove. now rewrite cut_first_absent.
Qed.


(** *** The tokens of [strtok_r] are the non-empty fields *)

Section Tokens.

Variable c : ascii.

Lemma skip_delim_length (s : string) :
  (String.length (skip_delim c s) <= String.length s)%nat.
Proof.
  induction s as [ | a rest IH]; simpl; [ lia | ].
  destruct (Ascii.eqb a c); simpl; lia.
Qed.

Lemma take_token_length (s : string) :
  (String.length (snd (take_token c s)) <= String.length s)%nat.
Proof.
  induction s as [ | a rest IH]; simpl; [ lia | ].
  destruct (Ascii.eqb a c); simpl; [ lia | ].
  destruct (take_token c rest); simpl in *; lia.
Qed.

(** Leading delimiters only make empty fields. *)
Lemma skip_delim_fields (s : string) :
  filter nonempty (split_on c (skip_delim c s))
  = filter nonempty (split_on c s).
Proof.
  induction s as [ | a rest IH]; simpl; [ reflexivity | ].
  destruct (Ascii.eqb a c) eqn:E; simpl; [ assumption | ].
  now rewrite E.
Qed.

(** [take_token] cuts the first field off. *)
Lemma take_token_fields (s : string) :
  exists others : list string,
    split_on c s = fst (take_token c s) :: others
    /\ filter nonempty others
       = filter nonempty (split_on c (snd (take_token c s))).
Proof.
  induction s as [ | a rest (others & Hsplit & Hothers)]; simpl.
  - now exists [].
  - destruct (Ascii.eqb a c).
    + now exists (split_on c rest).
    + rewrite Hsplit. destruct (take_token c rest) as [tok more].
      now exists others.
Qed.

Lemma strtok_r_None (s : string) :
  strtok_r c s = None -> filter nonempty (split_on c s) = [].
Proof.
  unfold strtok_r. rewrite <- skip_delim_fields.
  now destruct (skip_delim c s).
Qed.

Lemma strtok_r_Some (s tok more : string) :
  strtok_r c s = Some (tok, more) ->
  filter nonempty (split_on c s)
  = tok :: filter nonempty (split_on c more)
  /\ (String.length more < String.length s)%nat.
Proof.
  unfold strtok_r. rewrite <- (skip_delim_fields s).
  pose proof (skip_delim_length s) as Hskip.
  assert (forall a rest, Ascii.eqb a c = true ->
                         skip_delim c s <> String a rest) as Hhead.
  { clear. induction s as [ | b rest' IH]; simpl; [ discriminate | ].
    intros a rest Ha. destruct (Ascii.eqb b c) eqn:Eb;
      [ now apply IH | congruence ]. }
  destruct (skip_delim c s) as [ | a rest]; [ discriminate | ].
  intro H. injection H as H.
  destruct (take_token_fields (String a rest)) as (others & Hsplit & Ho).
  pose proof (take_token_length rest) as Hlen.
  simpl in *.
  destruct (Ascii.eqb a c) eqn:Ea; [ now elim (Hhead a rest) | ].
  destruct (take_token c rest) as [tok' more']. injection H as <- <-.
  simpl in *. rewrite Hsplit. simpl. rewrite Ho. split; [ reflexivity | lia ].
Qed.

(** With fuel beyond the length of the string the loop ends on [NULL],
    and its tokens are the non-empty fields of the string, in order. *)
Lemma strtok_loop_enough (fuel : nat) :
  forall s : string,
    (String.length s < fuel)%nat ->
    strtok_loop fuel c s = filter nonempty (split_on c s).
Proof.
  induction fuel as [ | fuel IH]; intros s Hfuel; [ lia | ].
  simpl. destruct (strtok_r c s) as [[tok more] | ] eqn:E.
  - apply strtok_r_Some in E as [-> Hlen].
    rewrite IH by lia. reflexivity.
  - now rewrite strtok_r_None.
Qed.

End Tokens.

Lemma vrna_strsplit_nonempty_fields (s : string) (delimiter : option string) :
  vrna_strsplit s delimiter
  = filter nonempty (split_on (delimiter_char delimiter) s).
Proof. unfold vrna_strsplit. apply strtok_loop_enough. lia. Qed.

(** ** The claims about the string helpers *)








(** * Further properties of the ranking predicate

    The order that [<], [<=] and [==] put on doubles, and what it makes of
    the comparator: when two records beat each other, when neither beats
    the other, what NaN does, and where the comparator is an order after
    all. *)

(** ** The order on doubles *)

Lemma SFcompare_antisym (a b : spec_float) :
  SFcompare b a = option_map CompOpp (SFcompare a b).
Proof.
  destruct a as [s | s | | s m e], b as [s' | s' | | s' m' e']; simpl;
    try destruct s; try destruct s'; try reflexivity; simpl; f_equal;
    change (Pos.compare_cont Eq) with Pos.compare;
    rewrite (Z.compare_antisym e e'), (Pos.compare_antisym m m');
    destruct (e ?= e')%Z; simpl; try reflexivity;
    now rewrite CompOpp_involutive.
Qed.

Lemma SFcompare_refl (a : spec_float) :
  a <> S754_nan -> SFcompare a a = Some Eq.
Proof.
  destruct a as [s | s | | s m e]; simpl; intro H;
    try destruct s; try reflexivity; try congruence;
    now rewrite Z.compare_refl, Pos.compare_cont_refl.
Qed.

Lemma SFcompare_defined (a b : spec_float) :
  a <> S754_nan -> b <> S754_nan -> SFcompare a b <> None.
Proof. destruct a, b; simpl; congruence. Qed.

Lemma SFcompare_trans (a b c : spec_float) (r : comparison) :
  SFcompare a b = Some r -> SFcompare b c = Some r ->
  SFcompare a c = Some r.
Proof.
  destruct a as [s1 | s1 | | s1 m1 e1], b as [s2 | s2 | | s2 m2 e2],
           c as [s3 | s3 | | s3 m3 e3]; simpl;
    try destruct s1; try destruct s2; try destruct s3; simpl;
    try congruence;
    change (Pos.compare_cont Eq) with Pos.compare;
    destruct (Z.compare_spec e1 e2), (Z.compare_spec e2 e3),
             (Z.compare_spec e1 e3);
    destruct (Pos.compare_spec m1 m2), (Pos.compare_spec m2 m3),
             (Pos.compare_spec m1 m3);
    simpl; intros; subst; try congruence; lia.
Qed.

Lemma is_nan_spec (a : double) :
  is_nan a = true <-> Prim2SF a = S754_nan.
Proof.
  unfold is_nan. rewrite FloatAxioms.eqb_spec. unfold SFeqb. split.
  - intro H. destruct (Prim2SF a) as [s | s | | s m e] eqn:E; trivial;
      rewrite SFcompare_refl in H; discriminate.
  - intros ->. reflexivity.
Qed.

Lemma is_nan_false_spec (a : double) :
  is_nan a = false <-> Prim2SF a <> S754_nan.
Proof. rewrite <- is_nan_spec. now destruct (is_nan a). Qed.

Lemma double_lt_asym (a b : double) :
  (a <? b)%float = true -> (b <? a)%float = false.
Proof.
  rewrite !FloatAxioms.ltb_spec. unfold SFltb.
  rewrite (SFcompare_antisym (Prim2SF a) (Prim2SF b)).
  destruct (SFcompare (Prim2SF a) (Prim2SF b)) as [[ | | ] | ]; simpl;
    congruence.
Qed.

Lemma double_lt_trans (a b c : double) :
  (a <? b)%float = true -> (b <? c)%float = true -> (a <? c)%float = true.
Proof.
  rewrite !FloatAxioms.ltb_spec. unfold SFltb.
  destruct (SFcompare (Prim2SF a) (Prim2SF b)) as [[ | | ] | ] eqn:E1;
    try discriminate.
  destruct (SFcompare (Prim2SF b) (Prim2SF c)) as [[ | | ] | ] eqn:E2;
    try discriminate.
  now rewrite (SFcompare_trans _ _ _ _ E1 E2).
Qed.

Lemma double_eq_trans (a b c : double) :
  (a =? b)%float = true -> (b =? c)%float = true -> (a =? c)%float = true.
Proof.
  rewrite !FloatAxioms.eqb_spec. unfold SFeqb.
  destruct (SFcompare (Prim2SF a) (Prim2SF b)) as [[ | | ] | ] eqn:E1;
    try discriminate.
  destruct (SFcompare (Prim2SF b) (Prim2SF c)) as [[ | | ] | ] eqn:E2;
    try discriminate.
  now rewrite (SFcompare_trans _ _ _ _ E1 E2).
Qed.

(** Every comparison with NaN is false. *)
Lemma double_nan_lt (a b : double) :
  is_nan a = true -> (a <? b)%float = false /\ (b <? a)%float = false.
Proof.
  rewrite is_nan_spec, !FloatAxioms.ltb_spec. unfold SFltb. intros ->.
  split; [ reflexivity | ]. now destruct (Prim2SF b).
Qed.

(** Away from NaN, [a < b] is the negation of [b <= a]. *)
Lemma double_lt_le (a b : double) :
  is_nan a = false -> is_nan b = false ->
  (a <? b)%float = negb (b <=? a)%float.
Proof.
  rewrite !is_nan_false_spec, FloatAxioms.ltb_spec, FloatAxioms.leb_spec.
  unfold SFltb, SFleb. intros Ha Hb.
  pose proof (SFcompare_defined _ _ Ha Hb) as D.
  rewrite (SFcompare_antisym (Prim2SF a) (Prim2SF b)).
  destruct (SFcompare (Prim2SF a) (Prim2SF b)) as [[ | | ] | ]; simpl;
    congruence.
Qed.

(** [a == b] says that neither is NaN and neither is below the other. *)
Lemma double_eq_lt (a b : double) :
  (a =? b)%float = true <->
  is_nan a = false /\ is_nan b = false
  /\ (a <? b)%float = false /\ (b <? a)%float = false.
Proof.
  rewrite !is_nan_false_spec, !FloatAxioms.ltb_spec, FloatAxioms.eqb_spec.
  unfold SFltb, SFeqb.
  rewrite (SFcompare_antisym (Prim2SF a) (Prim2SF b)).
  split.
  - destruct (SFcompare (Prim2SF a) (Prim2SF b)) as [[ | | ] | ] eqn:E;
      try discriminate.
    intros _. repeat split; intro N; rewrite N in E;
      [ | destruct (Prim2SF a) ]; discriminate.
  - intros (Ha & Hb & H1 & H2).
    pose proof (SFcompare_defined _ _ Ha Hb) as D.
    destruct (SFcompare (Prim2SF a) (Prim2SF b)) as [[ | | ] | ];
      simpl in *; congruence.
Qed.

(** ** The comparator as a relation *)

(** X1: two records beat each other exactly when one of them has the
    smaller final energy and the other the smaller restricted energy: the
    comparator is not asymmetric, and this is the only way it fails to
    be. *)
Theorem isBetter_both_ways {pf_t : Type} (x y : Result pf_t) :
  isBetter x y = true /\ isBetter y x = true
  <->
  ((final_energy x <? final_energy y)%float = true
   /\ (restricted_energy y <? restricted_energy x)%float = true)
  \/ ((restricted_energy x <? restricted_energy y)%float = true
      /\ (final_energy y <? final_energy x)%float = true).
Proof.
  rewrite !isBetter_unfold. unfold isBetter_spec.
  pose proof (double_lt_asym (final_energy x) (final_energy y)) as Af.
  pose proof (double_lt_asym (restricted_energy x) (restricted_energy y))
    as Ar.
  destruct (final_energy x <? final_energy y)%float,
           (final_energy y <? final_energy x)%float,
           (restricted_energy x <? restricted_energy y)%float,
           (restricted_energy y <? restricted_energy x)%float;
    simpl; try (specialize (Af eq_refl)); try (specialize (Ar eq_refl));
    try discriminate; intuition congruence.
Qed.

(** The records of the example of C1 beat each other. *)
Lemma isBetter_both_ways_example :
  isBetter (sample (-2)%float (-5)%float) (sample (-10)%float (-4)%float)
  = true
  /\ isBetter (sample (-10)%float (-4)%float) (sample (-2)%float (-5)%float)
     = true.
Proof.
  apply (isBetter_both_ways (sample (-2)%float (-5)%float)
                            (sample (-10)%float (-4)%float)).
  left. split; reflexivity.
Defined.

(** X2: for records without NaN energies, neither beats the other exactly
    when they tie ([==]) on both energies. *)
Theorem isBetter_incomparable_iff_tie {pf_t : Type} (x y : Result pf_t) :
  is_nan (final_energy x) = false ->
  is_nan (restricted_energy x) = false ->
  is_nan (final_energy y) = false ->
  is_nan (restricted_energy y) = false ->
  (isBetter x y = false /\ isBetter y x = false
   <->
   (final_energy x =? final_energy y)%float = true
   /\ (restricted_energy x =? restricted_energy y)%float = true).
Proof.
  intros Nfx Nrx Nfy Nry.
  rewrite !isBetter_unfold. unfold isBetter_spec.
  rewrite !double_eq_lt, !orb_false_iff. intuition.
Qed.

Lemma isBetter_incomparable_iff_tie_example :
  isBetter (sample (-1)%float 0%float) (sample (-1)%float (-0)%float)
  = false
  /\ isBetter (sample (-1)%float (-0)%float) (sample (-1)%float 0%float)
     = false.
Proof.
  apply (isBetter_incomparable_iff_tie
           (sample (-1)%float 0%float) (sample (-1)%float (-0)%float));
    try reflexivity.
  split; reflexivity.
Defined.

(** X3: for records without NaN energies, [x] fails to beat [y] exactly
    when [y] is at least as good on both energies; so a record that is
    minimal in both energies is beaten by none. *)
Theorem isBetter_false_iff_dominated {pf_t : Type} (x y : Result pf_t) :
  is_nan (final_energy x) = false ->
  is_nan (restricted_energy x) = false ->
  is_nan (final_energy y) = false ->
  is_nan (restricted_energy y) = false ->
  (isBetter x y = false
   <->
   (final_energy y <=? final_energy x)%float = true
   /\ (restricted_energy y <=? restricted_energy x)%float = true).
Proof.
  intros Nfx Nrx Nfy Nry.
  rewrite isBetter_unfold. unfold isBetter_spec.
  rewrite (double_lt_le _ _ Nfx Nfy), (double_lt_le _ _ Nrx Nry).
  rewrite orb_false_iff, !negb_false_iff. reflexivity.
Qed.

Lemma isBetter_false_iff_dominated_example :
  isBetter (sample (-2)%float (-4)%float) (sample (-2)%float (-5)%float)
  = false.
Proof.
  apply (isBetter_false_iff_dominated
           (sample (-2)%float (-4)%float) (sample (-2)%float (-5)%float));
    try reflexivity.
  split; reflexivity.
Defined.

(** X4: a NaN energy drops out of the comparison.  With a NaN final
    energy on either side the restricted energies alone decide, with a NaN
    restricted energy on either side the final energies alone decide, and
    a record whose two energies are NaN neither beats nor is beaten by any
    record. *)
Theorem isBetter_nan {pf_t : Type} (x y : Result pf_t) :
  (is_nan (final_energy x) = true \/ is_nan (final_energy y) = true ->
   isBetter x y = (restricted_energy x <? restricted_energy y)%float)
  /\ (is_nan (restricted_energy x) = true
      \/ is_nan (restricted_energy y) = true ->
      isBetter x y = (final_energy x <? final_energy y)%float)
  /\ (is_nan (final_energy x) = true ->
      is_nan (restricted_energy x) = true ->
      isBetter x y = false /\ isBetter y x = false).
Proof.
  rewrite !isBetter_unfold. unfold isBetter_spec.
  split; [ | split ].
  - intros [N | N].
    + now rewrite (proj1 (double_nan_lt _ (final_energy y) N)).
    + now rewrite (proj2 (double_nan_lt _ (final_energy x) N)).
  - intros [N | N].
    + rewrite (proj1 (double_nan_lt _ (restricted_energy y) N)).
      apply orb_false_r.
    + rewrite (proj2 (double_nan_lt _ (restricted_energy x) N)).
      apply orb_false_r.
  - intros Nf Nr.
    destruct (double_nan_lt _ (final_energy y) Nf) as [-> ->].
    destruct (double_nan_lt _ (restricted_energy y) Nr) as [-> ->].
    split; reflexivity.
Qed.

(** A record of NaN energies next to the best record of the examples. *)
Lemma isBetter_nan_example :
  isBetter (sample nan nan) (sample (-10)%float (-5)%float) = false
  /\ isBetter (sample (-10)%float (-5)%float) (sample nan nan) = false.
Proof.
  destruct (isBetter_nan (sample nan nan) (sample (-10)%float (-5)%float))
    as (_ & _ & H).
  apply H; reflexivity.
Defined.

(** X5: transitivity fails only when the two steps are decided by
    different energies: if [x] beats [y] and [y] beats [z] but [x] does
    not beat [z], then one step holds by the final energy and the other by
    the restricted energy. *)
Theorem isBetter_intransitive_only_mixed {pf_t : Type}
    (x y z : Result pf_t) :
  isBetter x y = true -> isBetter y z = true -> isBetter x z = false ->
  ((final_energy x <? final_energy y)%float = true
   /\ (restricted_energy y <? restricted_energy z)%float = true)
  \/ ((restricted_energy x <? restricted_energy y)%float = true
      /\ (final_energy y <? final_energy z)%float = true).
Proof.
  rewrite !isBetter_unfold. unfold isBetter_spec.
  pose proof (double_lt_trans (final_energy x) (final_energy y)
                (final_energy z)) as Tf.
  pose proof (double_lt_trans (restricted_energy x) (restricted_energy y)
                (restricted_energy z)) as Tr.
  destruct (final_energy x <? final_energy y)%float,
           (final_energy y <? final_energy z)%float,
           (restricted_energy x <? restricted_energy y)%float,
           (restricted_energy y <? restricted_energy z)%float;
    simpl; intros H1 H2 H3; try discriminate;
    apply orb_false_iff in H3 as [H3 H4];
    try (rewrite Tf in H3 by reflexivity);
    try (rewrite Tr in H4 by reflexivity);
    try discriminate; tauto.
Qed.

(** The triple of C3: [x] beats [y] on the restricted energy, [y] beats
    [z] on the final energy. *)
Lemma isBetter_intransitive_only_mixed_example :
  let x := sample 1%float 2%float in
  let y := sample 2%float 0%float in
  let z := sample 0%float 1%float in
  ((final_energy x <? final_energy y)%float = true
   /\ (restricted_energy y <? restricted_energy z)%float = true)
  \/ ((restricted_energy x <? restricted_energy y)%float = true
      /\ (final_energy y <? final_energy z)%float = true).
Proof.
  intros x y z.
  apply (isBetter_intransitive_only_mixed x y z); reflexivity.
Defined.

(** X6: among records that tie ([==]) on the final energy the comparator
    is a strict order: it is the order of the restricted energies, hence
    asymmetric and transitive. *)
Theorem isBetter_strict_order_on_final_tie {pf_t : Type}
    (x y z : Result pf_t) :
  (final_energy x =? final_energy y)%float = true ->
  (final_energy y =? final_energy z)%float = true ->
  (isBetter x y = true -> isBetter y x = false)
  /\ (isBetter x y = true -> isBetter y z = true -> isBetter x z = true).
Proof.
  intros Exy Eyz.
  pose proof (double_eq_trans _ _ _ Exy Eyz) as Exz.
  pose proof (proj1 (double_eq_lt _ _) Exy) as (_ & _ & _ & Lyx).
  rewrite !isBetter_unfold. unfold isBetter_spec.
  rewrite (double_eq_not_lt _ _ Exy), (double_eq_not_lt _ _ Eyz),
    (double_eq_not_lt _ _ Exz), Lyx. simpl.
  split; [ apply double_lt_asym | apply double_lt_trans ].
Qed.

Lemma isBetter_strict_order_on_final_tie_example :
  isBetter (sample (-3)%float (-5)%float) (sample (-1)%float (-5)%float)
  = true.
Proof.
  destruct (isBetter_strict_order_on_final_tie
              (sample (-3)%float (-5)%float)
              (sample (-2)%float (-5)%float)
              (sample (-1)%float (-5)%float) eq_refl eq_refl) as [_ H].
  apply H; reflexivity.
Defined.

(** X7: among records that tie ([==]) on the restricted energy the
    comparator is the order of the final energies, again asymmetric and
    transitive. *)
Theorem isBetter_strict_order_on_restricted_tie {pf_t : Type}
    (x y z : Result pf_t) :
  (restricted_energy x =? restricted_energy y)%float = true ->
  (restricted_energy y =? restricted_energy z)%float = true ->
  isBetter x y = (final_energy x <? final_energy y)%float
  /\ (isBetter x y = true -> isBetter y x = false)
  /\ (isBetter x y = true -> isBetter y z = true -> isBetter x z = true).
Proof.
  intros Exy Eyz.
  pose proof (double_eq_trans _ _ _ Exy Eyz) as Exz.
  pose proof (proj1 (double_eq_lt _ _) Exy) as (_ & _ & _ & Lyx).
  rewrite !isBetter_unfold. unfold isBetter_spec.
  rewrite (double_eq_not_lt _ _ Exy), (double_eq_not_lt _ _ Eyz),
    (double_eq_not_lt _ _ Exz), Lyx, !orb_false_r.
  repeat split; [ apply double_lt_asym | apply double_lt_trans ].
Qed.

Lemma isBetter_strict_order_on_restricted_tie_example :
  isBetter (sample (-5)%float (-3)%float) (sample (-5)%float (-1)%float)
  = true.
Proof.
  destruct (isBetter_strict_order_on_restricted_tie
              (sample (-5)%float (-3)%float)
              (sample (-5)%float (-2)%float)
              (sample (-5)%float (-1)%float) eq_refl eq_refl)
    as (_ & _ & H).
  apply H; reflexivity.
Defined.


(** * Further properties of the string helpers *)

Lemma contains_app (c : ascii) (u v : string) :
  contains c (u ++ v) = contains c u || contains c v.
Proof.
  induction u as [ | a u IH]; simpl; [ reflexivity | ].
  now rewrite IH, orb_assoc.
Qed.

Lemma insert_at_app (c : ascii) (u v : string) :
  insert_at (String.length u) c (u ++ v) = u ++ String c v.
Proof.
  induction u as [ | a u IH]; simpl; [ now destruct v | ].
  now rewrite IH.
Qed.

Lemma cut_first_app (c : ascii) (u v : string) :
  contains c u = false ->
  cut_first c (u ++ String c v) = Some (String.length u, u ++ v).
Proof.
  induction u as [ | a u IH]; simpl; intro H.
  - now rewrite Ascii.eqb_refl.
  - apply orb_false_iff in H as [E H].
    now rewrite E, IH.
Qed.

Lemma vrna_cut_point_insert_app (u v : string) :
  vrna_cut_point_insert (u ++ v) (Z.of_nat (String.length u) + 1)
  = u ++ String "&" v.
Proof.
  unfold vrna_cut_point_insert.
  replace (0 <? Z.of_nat (String.length u) + 1)%Z with true
    by (symmetry; apply Z.ltb_lt; lia).
  replace (Z.to_nat (Z.of_nat (String.length u) + 1 - 1))
    with (String.length u) by lia.
  apply insert_at_app.
Qed.

(** X8: a cut point put between two non-empty strands is where
    [vrna_strsplit] divides: for strands [u] and [v] without ['&'],
    inserting at position [length u + 1] into [u ++ v] and splitting on
    the default delimiter gives exactly [u] and [v]. *)
Theorem vrna_strsplit_cut_point_insert (u v : string) :
  contains "&" u = false -> contains "&" v = false ->
  u <> "" -> v <> "" ->
  vrna_strsplit
    (vrna_cut_point_insert (u ++ v) (Z.of_nat (String.length u) + 1)) None
  = [u; v].
Proof.
  intros Hu Hv Hu' Hv'.
  rewrite vrna_cut_point_insert_app, vrna_strsplit_nonempty_fields.
  simpl delimiter_char.
  rewrite split_app, split_absent by assumption.
  destruct u; [ contradiction | ]. destruct v; [ contradiction | ].
  reflexivity.
Qed.

Lemma vrna_strsplit_cut_point_insert_example :
  vrna_strsplit (vrna_cut_point_insert "GGGGCCCC" 5) None
  = ["GGGG"; "CCCC"].
Proof.
  apply (vrna_strsplit_cut_point_insert "GGGG" "CCCC");
    reflexivity || discriminate.
Defined.

(** X9: removing a cut point and putting it back restores the string.
    For strands [u] and [v] without ['&'], [v] not empty,
    [vrna_cut_point_remove] turns [u & v] into [u ++ v] with position
    [length u + 1], and [vrna_cut_point_insert] at that position gives
    [u & v] again; for a string without ['&'] the reported -1 makes the
    insertion return the string as it is. *)
Theorem cut_point_remove_insert (u v t : string) :
  contains "&" u = false -> contains "&" v = false -> v <> "" ->
  contains "&" t = false ->
  vrna_cut_point_remove (u ++ String "&" v)
  = (u ++ v, (Z.of_nat (String.length u) + 1)%Z)
  /\ vrna_cut_point_insert
       (fst (vrna_cut_point_remove (u ++ String "&" v)))
       (snd (vrna_cut_point_remove (u ++ String "&" v)))
     = u ++ String "&" v
  /\ vrna_cut_point_insert
       (fst (vrna_cut_point_remove t)) (snd (vrna_cut_point_remove t))
     = t.
Proof.
  intros Hu Hv _ Ht.
  assert (vrna_cut_point_remove (u ++ String "&" v)
          = (u ++ v, (Z.of_nat (String.length u) + 1)%Z)) as R.
  { unfold vrna_cut_point_remove. now rewrite cut_first_app. }
  rewrite R, (vrna_cut_point_remove_absent t Ht). simpl.
  repeat split. apply vrna_cut_point_insert_app.
Qed.

Lemma cut_point_remove_insert_example :
  vrna_cut_point_remove "GGGG&CCCC" = ("GGGGCCCC", 5%Z)
  /\ vrna_cut_point_insert "GGGGCCCC" 5 = "GGGG&CCCC".
Proof.
  destruct (cut_point_remove_insert "GGGG" "CCCC" "GGGGCCCC")
    as (R & I & _); try reflexivity; try discriminate.
  split; [ exact R | ].
  rewrite R in I. exact I.
Defined.

(** ** Conversion to the RNA alphabet *)

Lemma to_rna_idempotent (a : ascii) : to_rna (to_rna a) = to_rna a.
Proof.
  unfold to_rna.
  destruct (Ascii.eqb a "T") eqn:ET; [ reflexivity | ].
  destruct (Ascii.eqb a "t") eqn:Et; [ reflexivity | ].
  now rewrite ET, Et.
Qed.

Lemma to_rna_not_T (a : ascii) :
  Ascii.eqb (to_rna a) "T" = false /\ Ascii.eqb (to_rna a) "t" = false.
Proof.
  unfold to_rna.
  destruct (Ascii.eqb a "T") eqn:ET; [ now split | ].
  destruct (Ascii.eqb a "t") eqn:Et; [ now split | ].
  now rewrite ET, Et.
Qed.

Lemma to_rna_keeps_delimiter (c a : ascii) :
  c <> "T"%char -> c <> "t"%char -> c <> "U"%char -> c <> "u"%char ->
  Ascii.eqb (to_rna a) c = Ascii.eqb a c.
Proof.
  intros HT Ht HU Hu. unfold to_rna.
  destruct (Ascii.eqb a "T") eqn:ET.
  - apply Ascii.eqb_eq in ET. subst a.
    transitivity false; [ | symmetry ]; apply Ascii.eqb_neq; congruence.
  - destruct (Ascii.eqb a "t") eqn:Et; [ | reflexivity ].
    apply Ascii.eqb_eq in Et. subst a.
    transitivity false; [ | symmetry ]; apply Ascii.eqb_neq; congruence.
Qed.

Lemma split_on_map_chars (f : ascii -> ascii) (c : ascii) (s : string) :
  (forall a, Ascii.eqb (f a) c = Ascii.eqb a c) ->
  split_on c (map_chars f s) = map (map_chars f) (split_on c s).
Proof.
  intro Hf. induction s as [ | a rest IH]; simpl; [ reflexivity | ].
  rewrite Hf, IH.
  destruct (Ascii.eqb a c); [ reflexivity | ].
  now destruct (split_on c rest).
Qed.

(** X10: [vrna_seq_toRNA] keeps the length of the sequence, leaves no
    [T] and no [t] in it, changes nothing when applied a second time, and
    leaves a sequence without [T] and [t] as it is. *)
Theorem vrna_seq_toRNA_normalises (s : string) :
  String.length (vrna_seq_toRNA s) = String.length s
  /\ contains "T" (vrna_seq_toRNA s) = false
  /\ contains "t" (vrna_seq_toRNA s) = false
  /\ vrna_seq_toRNA (vrna_seq_toRNA s) = vrna_seq_toRNA s
  /\ (contains "T" s = false -> contains "t" s = false ->
      vrna_seq_toRNA s = s).
Proof.
  unfold vrna_seq_toRNA.
  induction s as [ | a rest (IHlen & IHT & IHt & IHidem & IHid)]; simpl.
  - repeat split.
  - destruct (to_rna_not_T a) as [NT Nt].
    rewrite IHlen, NT, Nt, IHT, IHt, IHidem, to_rna_idempotent.
    repeat split.
    intros HT Ht.
    apply orb_false_iff in HT as [ET HT], Ht as [Et Ht].
    rewrite (IHid HT Ht). unfold to_rna. now rewrite ET, Et.
Qed.

Lemma vrna_seq_toRNA_normalises_example :
  vrna_seq_toRNA "GGGUAAACCC" = "GGGUAAACCC"
  /\ vrna_seq_toRNA "GgTtACGT&acgt" = "GgUuACGU&acgu".
Proof.
  split; [ | reflexivity ].
  destruct (vrna_seq_toRNA_normalises "GGGUAAACCC") as (_ & _ & _ & _ & H).
  apply H; reflexivity.
Defined.

(** X11: converting to the RNA alphabet and splitting commute: for a
    delimiter other than [T], [t], [U] and [u] (the default ['&'] is one),
    the fields of the converted sequence are the converted fields of the
    sequence. *)
Theorem vrna_strsplit_toRNA (s : string) (delimiter : option string) :
  delimiter_char delimiter <> "T"%char ->
  delimiter_char delimiter <> "t"%char ->
  delimiter_char delimiter <> "U"%char ->
  delimiter_char delimiter <> "u"%char ->
  vrna_strsplit (vrna_seq_toRNA s) delimiter
  = map vrna_seq_toRNA (vrna_strsplit s delimiter).
Proof.
  intros HT Ht HU Hu. rewrite !vrna_strsplit_nonempty_fields.
  unfold vrna_seq_toRNA.
  rewrite split_on_map_chars
    by (intro a; now apply to_rna_keeps_delimiter).
  induction (split_on (delimiter_char delimiter) s) as [ | tok toks IH];
    simpl; [ reflexivity | ].
  destruct tok; simpl; now rewrite IH.
Qed.

Lemma vrna_strsplit_toRNA_example :
  vrna_strsplit (vrna_seq_toRNA "GGTT&AACC") None
  = map vrna_seq_toRNA (vrna_strsplit "GGTT&AACC" None).
Proof.
  apply (vrna_strsplit_toRNA "GGTT&AACC" None); discriminate.
Defined.
